(** * The word-count example tool of the tool engine

    A shallow embedding of [src/core/tool-engine/runners/example-tool.py]:
    the entry function [run] of the example tool that the sandboxed Python
    runner loads, together with the part of the Python data model it touches
    (dictionaries, strings, truthiness, [str.strip], [str.split], slicing). *)

From Stdlib Require Import ZArith String Ascii Floats.SpecFloat.
From stdpp Require Import base option list strings gmap.

#[local] Set Warnings "-register-all".
Local Open Scope Z_scope.

(** ** Python values *)

(** A Python [str] is a sequence of Unicode code points; [len] counts code
    points, so a string is modelled as the list of its code points. *)
Abbreviation char := N (only parsing).
Abbreviation str := (list N) (only parsing).

(** Reads an ASCII literal as a Python string. *)
Definition py (s : string) : str :=
  N_of_ascii <$> list_ascii_of_string s.

(** The values an arguments mapping can carry: the arguments of an invocation
    are structured data (what [json.loads] produces), so a value is [None], a
    [bool], an [int], a [float], a [str], a [list] or a [dict] with string
    keys.  Dictionaries compare by content, not by insertion order. *)
Inductive value : Type :=
  | VNone
  | VBool (b : bool)
  | VInt (n : Z)
  | VFloat (f : spec_float)
  | VStr (s : str)
  | VList (l : list value)
  | VDict (d : gmap str value).

(** What a call produces: a returned value or a raised exception. *)
Inductive exception : Type :=
  | AttributeError
  | TypeError.

Inductive outcome (A : Type) : Type :=
  | Returned (a : A)
  | Raised (e : exception).
Arguments Returned {A} a.
Arguments Raised {A} e.

#[global] Instance outcome_ret : MRet outcome := λ A a, Returned a.

#[global] Instance outcome_bind : MBind outcome := λ A B k m,
  match m with
  | Returned a => k a
  | Raised e => Raised e
  end.

(** ** The string methods [run] calls *)

(** [str.isspace] on one code point: the code points CPython's
    [_PyUnicode_IsWhitespace] accepts (bidirectional class WS, B or S, or
    category Zs). *)
Definition isspace (c : char) : bool :=
  ((9 <=? c) && (c <=? 13) || (28 <=? c) && (c <=? 32)
   || (c =? 0x85) || (c =? 0xA0) || (c =? 0x1680)
   || (0x2000 <=? c) && (c <=? 0x200A)
   || (c =? 0x2028) || (c =? 0x2029) || (c =? 0x202F)
   || (c =? 0x205F) || (c =? 0x3000))%N.

(** [s.lstrip()], [s.rstrip()] and [s.strip()] without argument: whitespace is
    removed from the left end, from the right end, from both. *)
Fixpoint lstrip (s : str) : str :=
  match s with
  | [] => []
  | c :: s' => if isspace c then lstrip s' else s
  end.

Definition rstrip (s : str) : str := reverse (lstrip (reverse s)).

Definition strip (s : str) : str := rstrip (lstrip s).

(** [s.split()] without argument: one left-to-right scan; runs of whitespace
    separate the words and none is produced for leading or trailing
    whitespace.  [cur] holds, reversed, the characters of the word being
    read. *)
Fixpoint split_from (cur : str) (s : str) : list str :=
  match s with
  | [] => if cur is [] then [] else [reverse cur]
  | c :: s' =>
      if isspace c
      then (if cur is [] then split_from [] s'
            else reverse cur :: split_from [] s')
      else split_from (c :: cur) s'
  end.

Definition split (s : str) : list str := split_from [] s.

(** ** Truthiness, [len], attribute lookup *)

Definition is_zero (f : spec_float) : bool :=
  match f with
  | S754_zero _ => true
  | _ => false
  end.

(** [bool(v)]: [None], [False], zero and empty containers are falsy. *)
Definition truthy (v : value) : bool :=
  match v with
  | VNone => false
  | VBool b => b
  | VInt n => negb (n =? 0)
  | VFloat f => negb (is_zero f)
  | VStr s => negb (Nat.eqb (length s) 0)
  | VList l => negb (Nat.eqb (length l) 0)
  | VDict d => negb (Nat.eqb (size d) 0)
  end.

(** [len(v)]: defined on strings, lists and dictionaries. *)
Definition len (v : value) : outcome Z :=
  match v with
  | VStr s => Returned (Z.of_nat (length s))
  | VList l => Returned (Z.of_nat (length l))
  | VDict d => Returned (Z.of_nat (size d))
  | _ => Raised TypeError
  end.

(** [v.strip()]: only a [str] has the method among the values of an
    arguments mapping. *)
Definition call_strip (v : value) : outcome str :=
  match v with
  | VStr s => Returned (strip s)
  | _ => Raised AttributeError
  end.

(** [args.get(key, default)]. *)
Definition get (args : gmap str value) (key : str) (dflt : value) : value :=
  default dflt (args !! key).

(** ** The tool *)

(** [[w for w in text.strip().split() if w]] once [text.strip()] is known. *)
Definition words_of (stripped : str) : list str :=
  filter (λ w, truthy (VStr w)) (split stripped).

(** The dictionary of the early return. *)
Definition missing_text : value :=
  VDict {[ py "ok" := VBool false;
           py "error" :=
             VDict {[ py "message" := VStr (py "Missing required parameter: text") ]} ]}.

(** The dictionary of the final return. *)
Definition word_stats (wordCount characterCount : Z) (words : list str) : value :=
  VDict {[ py "ok" := VBool true;
           py "data" :=
             VDict {[ py "wordCount" := VInt wordCount;
                      py "characterCount" := VInt characterCount;
                      py "words" := VList (VStr <$> words) ]} ]}.

Definition run (args : gmap str value) : outcome value :=
  let text := get args (py "text") (VStr []) in
  if negb (truthy text) then Returned missing_text
  else
    stripped ← call_strip text;
    let words := words_of stripped in
    characterCount ← len text;
    Returned (word_stats (Z.of_nat (length words)) characterCount (take 10 words)).

(** ** Reading a result *)

(** [v[key]] on a dictionary, [None] when [v] is no dictionary or lacks the key. *)
Definition field (v : value) (key : str) : option value :=
  match v with
  | VDict d => d !! key
  | _ => None
  end.

(** The two shapes of the docstring: ['ok'] true with ['data'] and without
    ['error'], or ['ok'] false with ['error'] and without ['data']. *)
Definition is_success (v : value) : bool :=
  match field v (py "ok"), field v (py "data"), field v (py "error") with
  | Some (VBool true), Some _, None => true
  | _, _, _ => false
  end.

Definition is_failure (v : value) : bool :=
  match field v (py "ok"), field v (py "data"), field v (py "error") with
  | Some (VBool false), None, Some _ => true
  | _, _, _ => false
  end.

Definition error_message (v : value) : option value :=
  e ← field v (py "error"); field e (py "message").

Definition data_field (v : value) (key : str) : option value :=
  d ← field v (py "data"); field d key.

Definition is_str (v : value) : bool :=
  match v with
  | VStr _ => true
  | _ => false
  end.

(** ** Whitespace-separated words *)

(** The pieces of a text between consecutive whitespace characters, the empty
    ones included: a text with [n] whitespace characters has [n + 1] pieces. *)
Fixpoint pieces (s : str) : list str :=
  match s with
  | [] => [[]]
  | c :: s' =>
      if isspace c then [] :: pieces s'
      else match pieces s' with
           | p :: ps => (c :: p) :: ps
           | [] => [[c]]
           end
  end.

(** The whitespace-separated words of a text: its non-empty pieces, that is
    its maximal runs of characters that are not whitespace. *)
Definition whitespace_separated_words (s : str) : list str :=
  filter (λ w, w ≠ []) (pieces s).

(** * The tool engine *)

(** The engine that loads the tool is described by the specification only;
    its sequential behaviour is written down here from sections 3, 4.2, 4.4
    and 7: one invocation at a time, no clock.  What a tool does inside its
    Runner is an input of the model. *)
Module Engine.

(** Modelled from the spec: the stable error codes of section 7 (the engine's
    error taxonomy is not among the sources). *)
Inductive ErrorCode : Type :=
  | UnknownTool
  | InvalidArgument
  | RunnerUnavailable
  | Timeout
  | RunnerCrashed
  | ResourceLimitExceeded
  | ProtocolError.

Definition code_name (c : ErrorCode) : string :=
  match c with
  | UnknownTool => "unknown-tool"
  | InvalidArgument => "invalid-argument"
  | RunnerUnavailable => "runner-unavailable"
  | Timeout => "timeout"
  | RunnerCrashed => "runner-crashed"
  | ResourceLimitExceeded => "resource-limit-exceeded"
  | ProtocolError => "protocol-error"
  end.

(** Modelled from the spec: the Result of section 3 (the engine's result type
    is not among the sources), [Success{data}] or
    [Failure{error: {message, code?}}]. *)
Inductive Result : Type :=
  | Success (data : value)
  | Failure (message : string) (code : option string).

(** Modelled from the spec: what the engine observes of a Runner that
    executes one invocation (sections 4.2 and 4.3; the Runner is not among
    the sources): a well-formed response frame, no frame at all, a crash, a
    resource-limit violation, or a malformed frame. *)
Inductive Execution : Type :=
  | Responds (r : Result)
  | NeverReturns
  | Crashes
  | ExceedsLimit
  | Garbles.

(** Modelled from the spec: the ToolDescriptor of section 3 (the registry
    entries are not among the sources); the entry point is given by what it
    makes its Runner do on each arguments mapping. *)
Record ToolDescriptor : Type := {
  name : string;
  entrypoint : gmap str value → Execution;
  cpu_time : N;
  memory : N;
  timeout : N;
  grants : list string
}.

(** Modelled from the spec: the RunnerHandle of section 3 (the Runner pool is
    not among the sources), an execution context loaded with one tool. *)
Record Runner : Type := {
  rid : nat;
  rtool : string
}.

(** Modelled from the spec: the process-wide state of the engine (sections 3
    and 5; the engine is not among the sources): the registry, the Ready
    Runners of the pool, the spawn counter and the Runners torn down so
    far. *)
Record State : Type := {
  registry : gmap string ToolDescriptor;
  pool : list Runner;
  spawned : nat;
  torn_down : list nat
}.

Definition start (tools : gmap string ToolDescriptor) : State :=
  {| registry := tools; pool := []; spawned := 0; torn_down := [] |}.

Section Invoke.

(** The size of the pool and the wording of the engine's own failures are
    configuration. *)
Variable pool_size : nat.
Variable describe : ErrorCode → string.

(** Modelled from the spec: the Failure the engine synthesizes for a code
    (section 7; the engine is not among the sources). *)
Definition fault (c : ErrorCode) : Result :=
  Failure (describe c) (Some (code_name c)).

(** Modelled from the spec: the dispatch step of section 4.4 (the engine is
    not among the sources): a Ready Runner bound to the tool is taken from
    the pool, or one is spawned while the pool has room; the Runner comes with
    the state it leaves behind. *)
Definition acquire (e : State) (tool : string) : option (Runner * State) :=
  match list_find (λ r, rtool r = tool) (pool e) with
  | Some (i, r) =>
      Some (r, {| registry := registry e; pool := delete i (pool e);
                  spawned := spawned e; torn_down := torn_down e |})
  | None =>
      if bool_decide (length (pool e) < pool_size)%nat
      then Some ({| rid := spawned e; rtool := tool |},
                 {| registry := registry e; pool := pool e;
                    spawned := S (spawned e); torn_down := torn_down e |})
      else None
  end.

(** A Runner goes back to the pool, or is torn down for good. *)
Definition release (r : Runner) (e : State) : State :=
  {| registry := registry e; pool := r :: pool e;
     spawned := spawned e; torn_down := torn_down e |}.

Definition tear_down (r : Runner) (e : State) : State :=
  {| registry := registry e; pool := pool e;
     spawned := spawned e; torn_down := rid r :: torn_down e |}.

(** Modelled from the spec: [invoke(toolName, arguments)] of section 4.4
    (the engine is not among the sources): an unknown name is rejected before
    any Runner is involved; otherwise a Runner is acquired, the request is
    executed, and every fault of the Runner becomes a Failure with its code
    while the Runner is torn down. *)
Definition invoke (e : State) (tool : string) (arguments : gmap str value)
    : Result * State :=
  match registry e !! tool with
  | None => (fault UnknownTool, e)
  | Some d =>
      match acquire e tool with
      | None => (fault RunnerUnavailable, e)
      | Some (r, e') =>
          match entrypoint d arguments with
          | Responds res => (res, release r e')
          | NeverReturns => (fault Timeout, tear_down r e')
          | Crashes => (fault RunnerCrashed, tear_down r e')
          | ExceedsLimit => (fault ResourceLimitExceeded, tear_down r e')
          | Garbles => (fault ProtocolError, tear_down r e')
          end
      end
  end.

(** A sequence of invocations, one after the other. *)
Fixpoint invoke_all (e : State) (calls : list (string * gmap str value))
    : list Result * State :=
  match calls with
  | [] => ([], e)
  | (tool, arguments) :: calls' =>
      let '(res, e') := invoke e tool arguments in
      let '(ress, e'') := invoke_all e' calls' in
      (res :: ress, e'')
  end.

End Invoke.

(** The bookkeeping that every state reached from [start] satisfies: the
    Runners of the pool have distinct identifiers, all handed out already, and
    no Runner torn down is in the pool. *)
Definition consistent (e : State) : Prop :=
  NoDup (rid <$> pool e)
  ∧ (∀ r, r ∈ pool e → (rid r < spawned e)%nat)
  ∧ (∀ i, i ∈ torn_down e →
          (i < spawned e)%nat ∧ ∀ r, r ∈ pool e → rid r ≠ i).

(** Two tools to run the model on: one that answers with its arguments, one
    that loops for ever. *)
Definition echo : ToolDescriptor :=
  {| name := "echo"; entrypoint := λ arguments, Responds (Success (VDict arguments));
     cpu_time := 1; memory := 1; timeout := 1; grants := [] |}.

Definition spin : ToolDescriptor :=
  {| name := "spin"; entrypoint := λ _, NeverReturns;
     cpu_time := 1; memory := 1; timeout := 1; grants := [] |}.

End Engine.

(** ** The string functions on concrete texts *)

Example strip_example : strip (py "  a b  ") = py "a b".
Proof. reflexivity. Qed.

Example split_example :
  split (py "  the   quick brown ") = [py "the"; py "quick"; py "brown"].
Proof. reflexivity. Qed.

(** A tab, a line feed and a no-break space (U+00A0) separate words too. *)
Example split_unicode_example :
  split [97; 9; 98; 10; 99; 160; 100]%N = [[97]; [98]; [99]; [100]]%N.
Proof. reflexivity. Qed.

Example words_example :
  whitespace_separated_words (py " one  two ") = [py "one"; py "two"].
Proof. reflexivity. Qed.

(** ** The string functions against the words of a text *)

Lemma truthy_str (w : str) : truthy (VStr w) ↔ w ≠ [].
Proof. destruct w; simpl; split; (done || tauto). Qed.

Lemma pieces_cons (s : str) : ∃ p ps, pieces s = p :: ps.
Proof.
  induction s as [|c s IH]; simpl; [by eauto|].
  destruct (isspace c); [by eauto|].
  destruct IH as (p & ps & ->). eauto.
Qed.

(** The scan of [split] with a word in progress, in terms of the pieces. *)
Lemma split_from_pieces (cur s : str) :
  split_from cur s =
  match pieces s with
  | p :: ps => filter (λ w, w ≠ []) ((reverse cur ++ p) :: ps)
  | [] => []
  end.
Proof.
  revert cur. induction s as [|c s IH]; intros cur; simpl.
  - rewrite app_nil_r. destruct cur as [|a cur]; [done|].
    rewrite filter_cons_True; [done|].
    rewrite reverse_cons. by destruct (reverse cur).
  - destruct (isspace c).
    + rewrite app_nil_r, (IH []). simpl.
      destruct (pieces_cons s) as (p & ps & Hp). rewrite Hp.
      destruct cur as [|a cur];
        [by rewrite (filter_cons_False _ (reverse [])) by (intros H; by apply H)|].
      rewrite (filter_cons_True _ (reverse (a :: cur))); [done|].
      rewrite reverse_cons. by destruct (reverse cur).
    + rewrite IH. destruct (pieces_cons s) as (p & ps & ->).
      by rewrite reverse_cons, <-app_assoc.
Qed.

Lemma split_words (s : str) : split s = whitespace_separated_words s.
Proof.
  unfold split, whitespace_separated_words. rewrite split_from_pieces.
  by destruct (pieces_cons s) as (p & ps & ->).
Qed.

Lemma lstrip_spaces (s : str) :
  ∃ ws, Forall (λ c, isspace c) ws ∧ s = ws ++ lstrip s.
Proof.
  induction s as [|c s (ws & Hws & IH)]; simpl; [by exists []|].
  destruct (isspace c) eqn:Hc; [|by exists []].
  exists (c :: ws). split; [|by rewrite <-app_comm_cons, <-IH].
  constructor; [by rewrite Hc|done].
Qed.

Lemma rstrip_spaces (s : str) :
  ∃ ws, Forall (λ c, isspace c) ws ∧ s = rstrip s ++ ws.
Proof.
  destruct (lstrip_spaces (reverse s)) as (ws & Hws & Hs).
  exists (reverse ws). split; [by apply Forall_reverse|].
  unfold rstrip. rewrite <-reverse_app, <-Hs. by rewrite reverse_involutive.
Qed.

(** Whitespace at either end of a text adds no word. *)
Lemma words_spaces_l (ws s : str) :
  Forall (λ c, isspace c) ws →
  whitespace_separated_words (ws ++ s) = whitespace_separated_words s.
Proof.
  unfold whitespace_separated_words.
  induction 1 as [|c ws Hc _ IH]; simpl; [done|].
  destruct (isspace c); [|done].
  by rewrite (filter_cons_False _ []) by (intros H; by apply H).
Qed.

Lemma pieces_spaces_r (s ws : str) :
  Forall (λ c, isspace c) ws →
  ∃ k, pieces (s ++ ws) = pieces s ++ replicate k [].
Proof.
  intros Hws. induction s as [|c s (k & IH)]; simpl.
  - clear -Hws. induction Hws as [|c ws Hc _ (k & IH)]; simpl; [by exists 0%nat|].
    destruct (isspace c); [|done].
    destruct (pieces_cons ws) as (p & ps & Hp). rewrite Hp in IH |- *.
    injection IH as -> ->. by exists (S k).
  - rewrite IH. destruct (isspace c); [by exists k|].
    destruct (pieces_cons s) as (p & ps & ->). by exists k.
Qed.

Lemma words_spaces_r (s ws : str) :
  Forall (λ c, isspace c) ws →
  whitespace_separated_words (s ++ ws) = whitespace_separated_words s.
Proof.
  intros Hws. unfold whitespace_separated_words.
  destruct (pieces_spaces_r s ws Hws) as (k & ->).
  rewrite filter_app. rewrite <-(app_nil_r (filter _ (pieces s))) at 2. f_equal.
  induction k as [|k IH]; simpl; [done|].
  by rewrite filter_cons_False by (intros H; by apply H).
Qed.

Lemma words_strip (s : str) :
  whitespace_separated_words (strip s) = whitespace_separated_words s.
Proof.
  unfold strip.
  destruct (lstrip_spaces s) as (l & Hl & Hs).
  destruct (rstrip_spaces (lstrip s)) as (r & Hr & Hs').
  rewrite Hs at 2. rewrite words_spaces_l by done.
  rewrite Hs' at 2. by rewrite words_spaces_r.
Qed.

(** The list the comprehension of [run] builds is the list of the
    whitespace-separated words of the text: stripping first and dropping empty
    strings afterwards change nothing. *)
Lemma words_of_strip (s : str) :
  words_of (strip s) = whitespace_separated_words s.
Proof.
  unfold words_of. rewrite split_words, words_strip.
  unfold whitespace_separated_words.
  induction (pieces s) as [|p ps IH]; [done|].
  destruct (decide (p ≠ [])) as [Hp|Hp].
  - rewrite (filter_cons_True _ p) by done.
    rewrite filter_cons_True by (by apply truthy_str). by rewrite IH.
  - by rewrite filter_cons_False.
Qed.

(** The words are what the definition promises: non-empty, free of
    whitespace, and together all the characters of the text that are not
    whitespace, in order. *)
Lemma pieces_no_space (s : str) :
  Forall (Forall (λ c, ¬ isspace c)) (pieces s).
Proof.
  induction s as [|c s IH]; simpl; [by repeat constructor|].
  destruct (isspace c) eqn:Hc; [by constructor|].
  assert (¬ isspace c) by (rewrite Hc; intros []).
  destruct (pieces s) as [|p ps]; [by repeat constructor|].
  inversion_clear IH. by repeat constructor.
Qed.

Lemma pieces_concat (s : str) :
  concat (pieces s) = filter (λ c, ¬ isspace c) s.
Proof.
  induction s as [|c s IH]; simpl; [done|].
  destruct (isspace c) eqn:Hc.
  - by rewrite filter_cons_False by (rewrite Hc; intros H; by apply H).
  - rewrite filter_cons_True by (rewrite Hc; intros []). rewrite <-IH.
    by destruct (pieces_cons s) as (p & ps & ->).
Qed.

Lemma words_sound (s : str) :
  Forall (λ w, w ≠ [] ∧ Forall (λ c, ¬ isspace c) w)
         (whitespace_separated_words s)
  ∧ concat (whitespace_separated_words s) = filter (λ c, ¬ isspace c) s.
Proof.
  unfold whitespace_separated_words. split.
  - apply Forall_forall. intros w [Hw Hin]%list_elem_of_filter. split; [done|].
    by eapply (proj1 (Forall_forall _ _) (pieces_no_space s)).
  - rewrite <-pieces_concat.
    induction (pieces s) as [|p ps IH]; [done|].
    destruct (decide (p ≠ [])) as [Hp|Hp].
    + rewrite filter_cons_True by done. simpl. by rewrite IH.
    + rewrite filter_cons_False by done. apply dec_stable in Hp as ->. done.
Qed.

(** ** The branches of [run] *)

Lemma run_absent (args : gmap str value) :
  args !! py "text" = None → run args = Returned missing_text.
Proof. intros H. unfold run, get. by rewrite H. Qed.

Lemma run_falsy (args : gmap str value) (x : value) :
  args !! py "text" = Some x → truthy x = false →
  run args = Returned missing_text.
Proof. intros H Hx. unfold run, get. rewrite H. simpl. by rewrite Hx. Qed.

Lemma run_str (args : gmap str value) (s : str) :
  args !! py "text" = Some (VStr s) → s ≠ [] →
  run args =
  Returned (word_stats (Z.of_nat (length (whitespace_separated_words s)))
                       (Z.of_nat (length s))
                       (take 10 (whitespace_separated_words s))).
Proof.
  intros H Hs. unfold run, get. rewrite H. simpl.
  destruct s as [|c s]; [done|]. simpl.
  by rewrite words_of_strip.
Qed.

Lemma run_raises (args : gmap str value) (x : value) :
  args !! py "text" = Some x → truthy x = true → is_str x = false →
  run args = Raised AttributeError.
Proof.
  intros H Hx Hstr. unfold run, get. rewrite H. simpl. rewrite Hx. simpl.
  by destruct x.
Qed.

Lemma failure_missing_text :
  is_failure missing_text = true ∧ is_success missing_text = false
  ∧ error_message missing_text
    = Some (VStr (py "Missing required parameter: text")).
Proof. by vm_compute. Qed.

Lemma success_word_stats (n m : Z) (ws : list str) :
  is_success (word_stats n m ws) = true
  ∧ is_failure (word_stats n m ws) = false
  ∧ data_field (word_stats n m ws) (py "wordCount") = Some (VInt n)
  ∧ data_field (word_stats n m ws) (py "characterCount") = Some (VInt m)
  ∧ data_field (word_stats n m ws) (py "words") = Some (VList (VStr <$> ws)).
Proof. done. Qed.

(** ** The end-to-end examples *)

(** C1: called with [{"text": "the quick brown fox"}], [run] returns a Success
    whose data is exactly
    [{wordCount: 4, characterCount: 19, words: ["the","quick","brown","fox"]}]. *)
Theorem run_quick_brown_fox :
  ∃ r, run {[ py "text" := VStr (py "the quick brown fox") ]} = Returned r
       ∧ is_success r = true
       ∧ field r (py "data")
         = Some (VDict {[ py "wordCount" := VInt 4;
                          py "characterCount" := VInt 19;
                          py "words" :=
                            VList [VStr (py "the"); VStr (py "quick");
                                   VStr (py "brown"); VStr (py "fox")] ]}).
Proof. eexists. split; [by vm_compute|]. by vm_compute. Qed.

(** C2: called with the empty mapping [{}], [run] returns (it does not raise)
    a Failure whose error message is exactly
    ["Missing required parameter: text"]. *)
Theorem run_empty_arguments :
  ∃ r, run ∅ = Returned r
       ∧ is_failure r = true
       ∧ field r (py "error")
         = Some (VDict {[ py "message" :=
                            VStr (py "Missing required parameter: text") ]}).
Proof. eexists. split; [reflexivity|]. by vm_compute. Qed.

(** ** Word counts and the ten-word cap *)

(** C3: for a text of more than 10 whitespace-separated words the Success data
    has [wordCount] the full number of words and [characterCount] the length of
    the text, while [words] holds only the first 10 of them, so 10 = len(words)
    < wordCount; for a text of at most 10 words the Success data lists all the
    words in order (and there is Success data as soon as the text is not the
    empty string). *)
Theorem run_words_capped (args : gmap str value) (s : str) :
  args !! py "text" = Some (VStr s) →
  let ws := whitespace_separated_words s in
  ((10 < length ws)%nat →
     ∃ r, run args = Returned r
          ∧ is_success r = true
          ∧ data_field r (py "wordCount") = Some (VInt (Z.of_nat (length ws)))
          ∧ data_field r (py "characterCount") = Some (VInt (Z.of_nat (length s)))
          ∧ data_field r (py "words") = Some (VList (VStr <$> take 10 ws))
          ∧ length (take 10 ws) = 10%nat
          ∧ (length (take 10 ws) < length ws)%nat)
  ∧ ((length ws ≤ 10)%nat →
     (∀ r, run args = Returned r → is_success r = true →
           data_field r (py "wordCount") = Some (VInt (Z.of_nat (length ws)))
           ∧ data_field r (py "characterCount")
             = Some (VInt (Z.of_nat (length s)))
           ∧ data_field r (py "words") = Some (VList (VStr <$> ws)))
     ∧ (s ≠ [] → ∃ r, run args = Returned r ∧ is_success r = true)).
Proof.
  intros Hs ws. split.
  - intros Hlen.
    assert (s ≠ []) as Hne by (intros ->; vm_compute in Hlen; lia).
    eexists. split; [by apply run_str|].
    pose proof (length_take ws 10) as Htake.
    repeat split; try done; lia.
  - intros Hlen. split.
    + intros r Hr Hok. destruct (decide (s = [])) as [->|Hne].
      * rewrite (run_falsy _ _ Hs eq_refl) in Hr. by injection Hr as <-.
      * rewrite (run_str _ _ Hs Hne) in Hr. injection Hr as <-.
        fold ws. by rewrite (take_ge ws 10%nat) by lia.
    + intros Hne. eexists. by split; [apply run_str|].
Qed.

Lemma run_words_capped_witness :
  let long := py "a b c d e f g h i j k l" in
  let short := py " one  two " in
  (∃ r, run {[ py "text" := VStr long ]} = Returned r
        ∧ is_success r = true
        ∧ data_field r (py "wordCount")
          = Some (VInt (Z.of_nat (length (whitespace_separated_words long))))
        ∧ data_field r (py "characterCount")
          = Some (VInt (Z.of_nat (length long)))
        ∧ data_field r (py "words")
          = Some (VList (VStr <$> take 10 (whitespace_separated_words long)))
        ∧ length (take 10 (whitespace_separated_words long)) = 10%nat
        ∧ (length (take 10 (whitespace_separated_words long))
           < length (whitespace_separated_words long))%nat)
  ∧ (data_field (word_stats 2 10 [py "one"; py "two"]) (py "wordCount")
     = Some (VInt (Z.of_nat (length (whitespace_separated_words short))))
     ∧ data_field (word_stats 2 10 [py "one"; py "two"]) (py "characterCount")
       = Some (VInt (Z.of_nat (length short)))
     ∧ data_field (word_stats 2 10 [py "one"; py "two"]) (py "words")
       = Some (VList (VStr <$> whitespace_separated_words short)))
  ∧ (∃ r, run {[ py "text" := VStr short ]} = Returned r
          ∧ is_success r = true).
Proof.
  intros long short. split; [|split].
  - refine (proj1 (run_words_capped {[ py "text" := VStr long ]} long _) _).
    + by vm_compute.
    + vm_compute. lia.
  - refine (proj1 (proj2 (run_words_capped {[ py "text" := VStr short ]}
                                           short _) _) _ _ _).
    + by vm_compute.
    + vm_compute. lia.
    + by vm_compute.
    + by vm_compute.
  - refine (proj2 (proj2 (run_words_capped {[ py "text" := VStr short ]}
                                           short _) _) _).
    + by vm_compute.
    + vm_compute. lia.
    + discriminate.
Defined.

(** ** The shape of every returned result *)

Lemma run_returns_shape (args : gmap str value) (x : value) :
  args !! py "text" = Some x →
  truthy x = false ∨ is_str x = true →
  ∃ r, run args = Returned r ∧ xorb (is_success r) (is_failure r) = true.
Proof.
  intros Hx [Hf|Hstr]; [rewrite (run_falsy _ _ Hx Hf); by eexists|].
  destruct x as [| | | |s| |]; try done.
  destruct s as [|c s]; [rewrite (run_falsy _ _ Hx eq_refl); by eexists|].
  rewrite (run_str _ _ Hx) by done. by eexists.
Qed.

(** C4: whatever the arguments mapping, a result that [run] returns is exactly
    one of the two variants: a Success (['ok'] true, a ['data'] field, no
    ['error'] field) or a Failure (['ok'] false, an ['error'] field, no
    ['data'] field), never both and never neither; and [run] does return one
    whenever ["text"] is absent, falsy or a string. *)
Theorem run_result_shape (args : gmap str value) :
  (∀ r, run args = Returned r → xorb (is_success r) (is_failure r) = true)
  ∧ ((∀ x, args !! py "text" = Some x → truthy x = false ∨ is_str x = true) →
     ∃ r, run args = Returned r ∧ xorb (is_success r) (is_failure r) = true).
Proof.
  split.
  - intros r Hr. destruct (args !! py "text") as [x|] eqn:Hx.
    + destruct (truthy x) eqn:Ht; [destruct (is_str x) eqn:Hstr|].
      * destruct (run_returns_shape args x Hx) as (r' & Hr' & Hshape);
          [by right|congruence].
      * rewrite (run_raises _ _ Hx Ht Hstr) in Hr. discriminate.
      * destruct (run_returns_shape args x Hx) as (r' & Hr' & Hshape);
          [by left|congruence].
    + rewrite (run_absent _ Hx) in Hr. by injection Hr as <-.
  - intros Hdom. destruct (args !! py "text") as [x|] eqn:Hx.
    + apply (run_returns_shape args x Hx). by apply Hdom.
    + rewrite (run_absent _ Hx). by eexists.
Qed.

Lemma run_result_shape_witness :
  (xorb (is_success (word_stats 2 3 [py "a"; py "b"]))
        (is_failure (word_stats 2 3 [py "a"; py "b"])) = true)
  ∧ ∃ r, run {[ py "text" := VStr (py "a b") ]} = Returned r
         ∧ xorb (is_success r) (is_failure r) = true.
Proof.
  split.
  - apply (proj1 (run_result_shape {[ py "text" := VStr (py "a b") ]})).
    by vm_compute.
  - apply (proj2 (run_result_shape {[ py "text" := VStr (py "a b") ]})).
    intros x Hx. right. vm_compute in Hx. by injection Hx as <-.
Defined.

(** ** Only the ["text"] key is read *)

(** C5: unknown argument keys are ignored: two arguments mappings that agree
    on the ["text"] key (same value, or absent in both) get the same outcome
    from [run], so adding or removing any other key changes nothing. *)
Theorem run_ignores_unknown_keys (args1 args2 : gmap str value) :
  args1 !! py "text" = args2 !! py "text" →
  run args1 = run args2
  ∧ (∀ k v, k ≠ py "text" → run (<[k:=v]> args1) = run args1)
  ∧ (∀ k, k ≠ py "text" → run (delete k args1) = run args1).
Proof.
  intros H. split; [|split].
  - unfold run, get. by rewrite H.
  - intros k v Hk. unfold run, get. by rewrite lookup_insert_ne.
  - intros k Hk. unfold run, get. by rewrite lookup_delete_ne.
Qed.

Lemma run_ignores_unknown_keys_witness :
  let args1 : gmap str value :=
    {[ py "text" := VStr (py "a b"); py "verbose" := VBool true ]} in
  let args2 : gmap str value :=
    {[ py "limit" := VInt 3; py "text" := VStr (py "a b") ]} in
  run args1 = run args2
  ∧ (∀ k v, k ≠ py "text" → run (<[k:=v]> args1) = run args1)
  ∧ (∀ k, k ≠ py "text" → run (delete k args1) = run args1).
Proof.
  intros args1 args2. apply (run_ignores_unknown_keys args1 args2).
  by vm_compute.
Defined.

(** ** Valid arguments *)

(** C6: when ["text"] maps to a non-empty string, [run] returns a Success
    whose data has the documented shape: the three fields [wordCount] (an
    integer), [characterCount] (an integer) and [words] (a list of strings),
    and no other. *)
Theorem run_valid_arguments (args : gmap str value) (s : str) :
  args !! py "text" = Some (VStr s) → s ≠ [] →
  ∃ r d n m ws,
    run args = Returned r
    ∧ is_success r = true
    ∧ field r (py "data") = Some (VDict d)
    ∧ dom d = {[ py "wordCount"; py "characterCount"; py "words" ]}
    ∧ d !! py "wordCount" = Some (VInt n)
    ∧ d !! py "characterCount" = Some (VInt m)
    ∧ d !! py "words" = Some (VList (VStr <$> ws)).
Proof.
  intros H Hs. eexists _, _, _, _, _. split; [by apply run_str|].
  split; [done|]. split; [done|]. split; [|done].
  rewrite !dom_insert_L, dom_singleton_L. set_solver.
Qed.

Lemma run_valid_arguments_witness :
  ∃ r d n m ws,
    run {[ py "text" := VStr (py "hello world") ]} = Returned r
    ∧ is_success r = true
    ∧ field r (py "data") = Some (VDict d)
    ∧ dom d = {[ py "wordCount"; py "characterCount"; py "words" ]}
    ∧ d !! py "wordCount" = Some (VInt n)
    ∧ d !! py "characterCount" = Some (VInt m)
    ∧ d !! py "words" = Some (VList (VStr <$> ws)).
Proof.
  refine (run_valid_arguments {[ py "text" := VStr (py "hello world") ]}
                              (py "hello world") _ _).
  - by vm_compute.
  - discriminate.
Defined.

(** ** Values that are not strings *)

(** C7: [run] returns a result only when the ["text"] value is absent, falsy
    or a string: on a truthy value that is not a string (the number 5, say)
    the call of [strip] raises and [run] returns neither a Success nor a
    Failure; when ["text"] is absent or a string no exception is raised and
    [run] returns a Success or a Failure. *)
Theorem run_raises_on_non_string (args : gmap str value) :
  (∀ x, args !! py "text" = Some x → truthy x = true → is_str x = false →
        run args = Raised AttributeError ∧ ∀ r, run args ≠ Returned r)
  ∧ (∀ r, run args = Returned r →
          args !! py "text" = None
          ∨ ∃ x, args !! py "text" = Some x
                 ∧ (truthy x = false ∨ is_str x = true))
  ∧ (args !! py "text" = None ∨ (∃ s, args !! py "text" = Some (VStr s)) →
     ∃ r, run args = Returned r
          ∧ (is_success r = true ∨ is_failure r = true)).
Proof.
  split; [|split].
  - intros x Hx Ht Hstr. rewrite (run_raises _ _ Hx Ht Hstr). by split.
  - intros r Hr. destruct (args !! py "text") as [x|] eqn:Hx; [right|by left].
    exists x. split; [done|].
    destruct (truthy x) eqn:Ht; [|by left].
    destruct (is_str x) eqn:Hstr; [by right|].
    rewrite (run_raises _ _ Hx Ht Hstr) in Hr. discriminate.
  - intros [Hx|[s Hx]].
    + rewrite (run_absent _ Hx). eexists. split; [done|by right].
    + destruct (run_returns_shape args (VStr s) Hx) as (r & Hr & Hshape);
        [by right|].
      exists r. split; [done|].
      destruct (is_success r), (is_failure r); auto.
Qed.

Lemma run_raises_on_non_string_witness :
  (run {[ py "text" := VInt 5 ]} = Raised AttributeError
   ∧ ∀ r, run {[ py "text" := VInt 5 ]} ≠ Returned r)
  ∧ (∃ r, run {[ py "text" := VStr (py "a b") ]} = Returned r
          ∧ (is_success r = true ∨ is_failure r = true)).
Proof.
  split.
  - refine (proj1 (run_raises_on_non_string {[ py "text" := VInt 5 ]})
                  (VInt 5) _ _ _); by vm_compute.
  - apply (proj2 (proj2 (run_raises_on_non_string
                           {[ py "text" := VStr (py "a b") ]}))).
    right. exists (py "a b"). by vm_compute.
Defined.

(** ** The empty string *)

(** C8: the empty string, like any falsy value, is treated as a missing
    argument: [run] returns the very Failure it returns for a mapping without
    the ["text"] key, with the message ["Missing required parameter: text"]. *)
Theorem run_empty_text_is_missing (args : gmap str value) (x : value) :
  args !! py "text" = Some x → x = VStr [] ∨ truthy x = false →
  (∀ args' : gmap str value, args' !! py "text" = None → run args = run args')
  ∧ ∃ r, run args = Returned r
         ∧ is_failure r = true
         ∧ error_message r
           = Some (VStr (py "Missing required parameter: text")).
Proof.
  intros Hx Hfalsy.
  assert (truthy x = false) as Hf by (by destruct Hfalsy as [->|]).
  rewrite (run_falsy _ _ Hx Hf). split.
  - intros args' Hnone. by rewrite (run_absent _ Hnone).
  - by eexists.
Qed.

Lemma run_empty_text_is_missing_witness :
  (∀ args' : gmap str value,
     args' !! py "text" = None → run {[ py "text" := VStr [] ]} = run args')
  ∧ ∃ r, run {[ py "text" := VStr [] ]} = Returned r
         ∧ is_failure r = true
         ∧ error_message r
           = Some (VStr (py "Missing required parameter: text")).
Proof.
  refine (run_empty_text_is_missing {[ py "text" := VStr [] ]} (VStr []) _ _).
  - by vm_compute.
  - by left.
Defined.

(** * The engine: unknown tools and Runners torn down *)

Section EngineProperties.

Variable pool_size : nat.
Variable describe : Engine.ErrorCode → string.

Local Abbreviation invoke := (Engine.invoke pool_size describe).
Local Abbreviation invoke_all := (Engine.invoke_all pool_size describe).
Local Abbreviation acquire := (Engine.acquire pool_size).

Lemma invoke_unregistered (e : Engine.State) (N : string)
    (arguments : gmap str value) :
  Engine.registry e !! N = None →
  invoke e N arguments = (Engine.fault describe Engine.UnknownTool, e).
Proof. intros H. unfold Engine.invoke. by rewrite H. Qed.

Lemma invoke_all_unregistered (e : Engine.State)
    (calls : list (string * gmap str value)) :
  Forall (λ c, Engine.registry e !! c.1 = None) calls →
  invoke_all e calls
  = ((λ _, Engine.fault describe Engine.UnknownTool) <$> calls, e).
Proof.
  induction 1 as [|[N arguments] calls H _ IH]; simpl; [done|].
  by rewrite (invoke_unregistered _ _ _ H), IH.
Qed.

(** C9: for a name [N] that is not registered and any arguments mapping,
    [invoke] returns a Failure with error code ["unknown-tool"] and leaves the
    engine as it was: no Runner is spawned and none is touched, so a spawn
    counter at 0 stays at 0, also over any number of such invocations. *)
Theorem invoke_unknown_tool (e : Engine.State) (N : string)
    (arguments : gmap str value) :
  Engine.registry e !! N = None →
  (∃ message,
     (invoke e N arguments).1 = Engine.Failure message (Some "unknown-tool"))
  ∧ (invoke e N arguments).2 = e
  ∧ (Engine.spawned e = 0%nat →
     Engine.spawned (invoke e N arguments).2 = 0%nat)
  ∧ (∀ calls,
       Forall (λ c, Engine.registry e !! c.1 = None) calls →
       Forall (λ r, ∃ message,
                 r = Engine.Failure message (Some "unknown-tool"))
              (invoke_all e calls).1
       ∧ (invoke_all e calls).2 = e).
Proof.
  intros H. rewrite (invoke_unregistered _ _ _ H). simpl.
  split; [by eexists|]. split; [done|]. split; [done|].
  intros calls Hcalls. rewrite (invoke_all_unregistered _ _ Hcalls). simpl.
  split; [|done]. apply Forall_fmap, Forall_true. intros c. by eexists.
Qed.

(** ** Runners torn down stay out of service *)

Lemma acquire_Some (e : Engine.State) (tool : string) (r : Engine.Runner)
    (e' : Engine.State) :
  acquire e tool = Some (r, e') →
  (∃ i, Engine.pool e !! i = Some r
        ∧ e' = {| Engine.registry := Engine.registry e;
                  Engine.pool := delete i (Engine.pool e);
                  Engine.spawned := Engine.spawned e;
                  Engine.torn_down := Engine.torn_down e |})
  ∨ (r = {| Engine.rid := Engine.spawned e; Engine.rtool := tool |}
     ∧ e' = {| Engine.registry := Engine.registry e;
               Engine.pool := Engine.pool e;
               Engine.spawned := S (Engine.spawned e);
               Engine.torn_down := Engine.torn_down e |}).
Proof.
  unfold Engine.acquire.
  destruct (list_find _ _) as [[i r']|] eqn:Hfind.
  - intros [= <- <-]. left. exists i.
    by apply list_find_Some in Hfind as (Hi & _ & _).
  - case_bool_decide; [|done]. intros [= <- <-]. by right.
Qed.

(** A Runner that was torn down is not the one an invocation gets. *)
Lemma acquire_not_torn_down (e : Engine.State) (tool : string)
    (r : Engine.Runner) (e' : Engine.State) :
  Engine.consistent e → acquire e tool = Some (r, e') →
  Engine.rid r ∉ Engine.torn_down e.
Proof.
  intros (_ & _ & Htorn) [(i & Hi & _)|[-> _]]%acquire_Some Hin;
    destruct (Htorn _ Hin) as [Hlt Hpool].
  - by apply (Hpool r); [eapply list_elem_of_lookup_2|].
  - simpl in Hlt. lia.
Qed.

Lemma acquire_consistent (e : Engine.State) (tool : string)
    (r : Engine.Runner) (e' : Engine.State) :
  Engine.consistent e → acquire e tool = Some (r, e') →
  Engine.consistent (Engine.release r e')
  ∧ Engine.consistent (Engine.tear_down r e').
Proof.
  intros (Hnd & Hpool & Htorn) [(i & Hi & ->)|[-> ->]]%acquire_Some;
    unfold Engine.consistent; simpl.
  - pose proof (delete_Permutation _ _ _ Hi) as Hperm.
    assert (∀ r', r' ∈ delete i (Engine.pool e) → r' ∈ Engine.pool e)
      as Hsub by (intros r' Hr'; rewrite Hperm; by right).
    rewrite Hperm in Hnd. rewrite fmap_cons in Hnd.
    apply NoDup_cons in Hnd as [Hfresh Hnd].
    split; [|split].
    + split; [by constructor|]. split.
      * intros r' [->|Hr']%elem_of_cons; [|by auto].
        by eapply Hpool, list_elem_of_lookup_2.
      * intros j Hj. destruct (Htorn j Hj) as [Hlt Hne]. split; [done|].
        intros r' [->|Hr']%elem_of_cons; [|by auto].
        by eapply Hne, list_elem_of_lookup_2.
    + done.
    + split; [by auto|].
      intros j [->|Hj]%elem_of_cons.
      * split; [by eapply Hpool, list_elem_of_lookup_2|].
        intros r' Hr' Heq. apply Hfresh. rewrite <-Heq.
        by apply list_elem_of_fmap_2.
      * destruct (Htorn j Hj) as [Hlt Hne]. by auto.
  - assert (Engine.spawned e ∉ Engine.rid <$> Engine.pool e) as Hfresh.
    { intros (r' & Heq & Hr')%list_elem_of_fmap.
      specialize (Hpool r' Hr'). lia. }
    split; [|split].
    + split; [by constructor|]. split.
      * intros r' [->|Hr']%elem_of_cons; simpl; [lia|].
        specialize (Hpool r' Hr'). lia.
      * intros j Hj. destruct (Htorn j Hj) as [Hlt Hne]. split; [lia|].
        intros r' [->|Hr']%elem_of_cons; simpl; [lia|by auto].
    + done.
    + split.
      * intros r' Hr'. specialize (Hpool r' Hr'). lia.
      * intros j [->|Hj]%elem_of_cons.
        -- split; [lia|]. intros r' Hr'. specialize (Hpool r' Hr'). lia.
        -- destruct (Htorn j Hj) as [Hlt Hne]. split; [lia|by auto].
Qed.

Lemma start_consistent (tools : gmap string Engine.ToolDescriptor) :
  Engine.consistent (Engine.start tools).
Proof.
  split; [by constructor|].
  split; simpl; intros x Hx; by apply elem_of_nil in Hx.
Qed.

Lemma acquire_torn_down (e : Engine.State) (tool : string)
    (r : Engine.Runner) (e' : Engine.State) :
  acquire e tool = Some (r, e') → Engine.torn_down e' = Engine.torn_down e.
Proof. by intros [(i & _ & ->)|[_ ->]]%acquire_Some. Qed.

(** An invocation keeps the bookkeeping consistent and forgets no Runner it
    tore down. *)
Lemma invoke_consistent (e : Engine.State) (tool : string)
    (arguments : gmap str value) :
  Engine.consistent e →
  Engine.consistent (invoke e tool arguments).2
  ∧ Engine.torn_down e ⊆ Engine.torn_down (invoke e tool arguments).2.
Proof.
  intros He. unfold Engine.invoke.
  destruct (Engine.registry e !! tool) as [d|]; [|done].
  destruct (acquire e tool) as [[r e']|] eqn:Hacq; [|done].
  destruct (acquire_consistent _ _ _ _ He Hacq) as [Hrel Htear].
  pose proof (acquire_torn_down _ _ _ _ Hacq) as Heq.
  destruct (Engine.entrypoint d arguments); simpl; rewrite Heq;
    (split; [done|set_solver]).
Qed.

Lemma invoke_all_consistent (e : Engine.State)
    (calls : list (string * gmap str value)) :
  Engine.consistent e →
  Engine.consistent (invoke_all e calls).2
  ∧ Engine.torn_down e ⊆ Engine.torn_down (invoke_all e calls).2.
Proof.
  revert e. induction calls as [|[tool arguments] calls IH]; intros e He;
    simpl; [done|].
  destruct (invoke e tool arguments) as [res e1] eqn:Hinv.
  destruct (invoke_consistent e tool arguments He) as [He1 Hsub1].
  rewrite Hinv in He1, Hsub1. simpl in He1, Hsub1.
  destruct (invoke_all e1 calls) as [ress e2] eqn:Hall.
  destruct (IH e1 He1) as [He2 Hsub2]. rewrite Hall in He2, Hsub2.
  simpl in *. split; [done|by etrans].
Qed.

(** The invocation of a tool that never returns ends in the Failure with code
    ["timeout"], and the Runner that was bound to it serves no later
    invocation: whatever is invoked afterwards, the Runner acquired is another
    one.  (The model has no clock: how long the engine waits is not part of
    it.) *)
Lemma invoke_never_returns (e : Engine.State) (tool : string)
    (arguments : gmap str value) (d : Engine.ToolDescriptor)
    (r : Engine.Runner) (e1 : Engine.State) :
  Engine.consistent e →
  Engine.registry e !! tool = Some d →
  Engine.entrypoint d arguments = Engine.NeverReturns →
  acquire e tool = Some (r, e1) →
  (invoke e tool arguments).1
  = Engine.Failure (describe Engine.Timeout) (Some "timeout")
  ∧ ∀ calls tool' r' e2,
      acquire (invoke_all (invoke e tool arguments).2 calls).2 tool'
      = Some (r', e2) →
      Engine.rid r' ≠ Engine.rid r.
Proof.
  intros He Hd Hnever Hacq.
  destruct (invoke_consistent e tool arguments He) as [He1 _].
  revert He1. unfold Engine.invoke. rewrite Hd, Hacq, Hnever. simpl.
  intros He1. split; [done|].
  intros calls tool' r' e2 Hacq' Heq.
  destruct (invoke_all_consistent _ calls He1) as [He2 Hsub].
  apply (acquire_not_torn_down _ _ _ _ He2 Hacq').
  rewrite Heq. apply Hsub. simpl. by left.
Qed.

End EngineProperties.

(** The model at work: the first call spawns Runner 0 and loses it to the
    timeout; the second call gets the fresh Runner 1, which goes back to the
    pool. *)
Example spin_then_echo :
  Engine.invoke_all 2 Engine.code_name
    (Engine.start {[ "spin" := Engine.spin; "echo" := Engine.echo ]})
    [("spin", ∅); ("echo", {[ py "text" := VStr (py "hi") ]})]
  = ([Engine.Failure "timeout" (Some "timeout");
      Engine.Success (VDict {[ py "text" := VStr (py "hi") ]})],
     {| Engine.registry := {[ "spin" := Engine.spin; "echo" := Engine.echo ]};
        Engine.pool := [{| Engine.rid := 1; Engine.rtool := "echo" |}];
        Engine.spawned := 2;
        Engine.torn_down := [0%nat] |}).
Proof. by vm_compute. Qed.

Lemma invoke_unknown_tool_witness :
  let e := Engine.start ∅ in
  (∃ message,
     (Engine.invoke 4 Engine.code_name e "word-count" ∅).1
     = Engine.Failure message (Some "unknown-tool"))
  ∧ (Engine.invoke 4 Engine.code_name e "word-count" ∅).2 = e
  ∧ (Engine.spawned e = 0%nat →
     Engine.spawned (Engine.invoke 4 Engine.code_name e "word-count" ∅).2
     = 0%nat)
  ∧ (∀ calls,
       Forall (λ c, Engine.registry e !! c.1 = None) calls →
       Forall (λ r, ∃ message,
                 r = Engine.Failure message (Some "unknown-tool"))
              (Engine.invoke_all 4 Engine.code_name e calls).1
       ∧ (Engine.invoke_all 4 Engine.code_name e calls).2 = e).
Proof.
  intros e.
  apply (invoke_unknown_tool 4 Engine.code_name e "word-count" ∅).
  reflexivity.
Defined.

(** * More on [run]: what the word list and the two counts obey *)

(** ** Reading the final return backwards *)

Lemma word_stats_inj (n m n' m' : Z) (ws ws' : list str) :
  word_stats n m ws = word_stats n' m' ws' → n = n' ∧ m = m' ∧ ws = ws'.
Proof.
  intros H.
  destruct (success_word_stats n m ws) as (_ & _ & Hn & Hm & Hws).
  destruct (success_word_stats n' m' ws') as (_ & _ & Hn' & Hm' & Hws').
  rewrite H in Hn, Hm, Hws.
  rewrite Hn' in Hn. rewrite Hm' in Hm. rewrite Hws' in Hws.
  injection Hn as <-. injection Hm as <-. injection Hws as Hws.
  repeat split. clear -Hws. revert ws' Hws.
  induction ws as [|w ws IH]; intros [|w' ws']; simpl; try done.
  intros [= <- Hws]. by rewrite (IH ws').
Qed.

(** The final return is reached for a non-empty string only, with the counts
    and the capped word list of that string. *)
Lemma run_str_inv (args : gmap str value) (s : str) (n m : Z) (ws : list str) :
  args !! py "text" = Some (VStr s) →
  run args = Returned (word_stats n m ws) →
  s ≠ []
  ∧ n = Z.of_nat (length (whitespace_separated_words s))
  ∧ m = Z.of_nat (length s)
  ∧ ws = take 10 (whitespace_separated_words s).
Proof.
  intros Hs Hr. destruct (decide (s = [])) as [->|Hne].
  - rewrite (run_falsy _ _ Hs eq_refl) in Hr.
    assert (missing_text = word_stats n m ws) as Heq by congruence.
    by pose proof (f_equal is_success Heq).
  - rewrite (run_str _ _ Hs Hne) in Hr.
    assert (word_stats (Z.of_nat (length (whitespace_separated_words s)))
                       (Z.of_nat (length s))
                       (take 10 (whitespace_separated_words s))
            = word_stats n m ws) as Heq by congruence.
    by apply word_stats_inj in Heq as (<- & <- & <-).
Qed.

(** ** What [strip] and the [if w] filter contribute *)

(** X1: in the comprehension [[w for w in text.strip().split() if w]] neither
    the call of [strip] nor the filter changes anything: the list is
    [text.split()], and [run] answers a non-empty string with the length of
    that list, the length of the unstripped text and its first 10 entries. *)
Theorem run_is_plain_split (args : gmap str value) (s : str) :
  args !! py "text" = Some (VStr s) → s ≠ [] →
  words_of (strip s) = split s
  ∧ run args
    = Returned (word_stats (Z.of_nat (length (split s))) (Z.of_nat (length s))
                           (take 10 (split s))).
Proof.
  intros Hs Hne. rewrite words_of_strip, split_words. split; [done|].
  by apply run_str.
Qed.

Lemma run_is_plain_split_witness :
  let s := py "  to be  or not " in
  words_of (strip s) = split s
  ∧ run {[ py "text" := VStr s ]}
    = Returned (word_stats (Z.of_nat (length (split s))) (Z.of_nat (length s))
                           (take 10 (split s))).
Proof.
  intros s. refine (run_is_plain_split {[ py "text" := VStr s ]} s _ _).
  - by vm_compute.
  - discriminate.
Defined.

(** ** Texts without a word *)

Lemma words_nil_iff (s : str) :
  whitespace_separated_words s = [] ↔ Forall (λ c, isspace c) s.
Proof.
  split.
  - unfold whitespace_separated_words.
    induction s as [|c s IH]; simpl; [by constructor|].
    destruct (isspace c) eqn:Hc.
    + rewrite (filter_cons_False _ []) by (intros H; by apply H).
      intros H. constructor; [by rewrite Hc|by apply IH].
    + destruct (pieces_cons s) as (p & ps & ->).
      by rewrite filter_cons_True.
  - intros H. rewrite <-(app_nil_r s). by rewrite words_spaces_l.
Qed.

(** X2: a non-empty text made of whitespace only is not a missing argument:
    [run] returns a Success with [wordCount] 0 and an empty [words] list, and
    its [characterCount] still counts every character; these are the only
    texts with a Success of [wordCount] 0. *)
Theorem run_blank_text (args : gmap str value) (s : str) :
  args !! py "text" = Some (VStr s) → s ≠ [] →
  ∃ n ws,
    run args = Returned (word_stats n (Z.of_nat (length s)) ws)
    ∧ (n = 0 ↔ Forall (λ c, isspace c) s)
    ∧ (n = 0 → ws = []).
Proof.
  intros Hs Hne. eexists _, _. split; [by apply run_str|].
  rewrite <-words_nil_iff. split.
  - split; [|by intros ->].
    by destruct (whitespace_separated_words s).
  - by destruct (whitespace_separated_words s).
Qed.

Lemma run_blank_text_witness :
  ∃ n ws,
    run {[ py "text" := VStr [32; 9; 10]%N ]}
    = Returned (word_stats n (Z.of_nat (length [32; 9; 10]%N)) ws)
    ∧ (n = 0 ↔ Forall (λ c, isspace c) [32; 9; 10]%N)
    ∧ (n = 0 → ws = []).
Proof.
  refine (run_blank_text {[ py "text" := VStr [32; 9; 10]%N ]} _ _ _).
  - by vm_compute.
  - discriminate.
Defined.

(** ** Counts against each other *)

(** Words need a character each and a separator between two of them. *)
Lemma words_length_bound (s : str) :
  (2 * length (whitespace_separated_words s) ≤ length s + 1)%nat.
Proof.
  unfold whitespace_separated_words.
  assert (match pieces s with
          | p :: ps =>
              (2 * length (filter (λ w, w ≠ []) (p :: ps))
               ≤ length s + (if decide (p = []) then 0 else 1))%nat
          | [] => True
          end) as H.
  { induction s as [|c s IH]; simpl pieces; [simpl; lia|].
    destruct (pieces_cons s) as (p & ps & Hp). rewrite Hp in IH |- *.
    destruct (isspace c).
    - rewrite (filter_cons_False _ []) by (intros H; by apply H).
      rewrite decide_True by done. simpl length. case_decide; lia.
    - rewrite decide_False by done.
      rewrite filter_cons_True by done. simpl length.
      destruct (decide (p = [])) as [->|Hne].
      + rewrite (filter_cons_False _ []) in IH by (intros H; by apply H). lia.
      + rewrite filter_cons_True in IH by done. simpl length in IH. lia. }
  destruct (pieces s) as [|p ps]; [simpl; lia|]. case_decide; lia.
Qed.

(** X3: in every Success, [wordCount] is at least 0 and [characterCount] is
    at least [2 * wordCount - 1]: each word has a character and two words have
    a separator between them; in particular [wordCount <= characterCount]. *)
Theorem run_counts_bound (args : gmap str value) (s : str) :
  args !! py "text" = Some (VStr s) → s ≠ [] →
  ∃ n m ws,
    run args = Returned (word_stats n m ws)
    ∧ 0 ≤ n ∧ 2 * n - 1 ≤ m ∧ n ≤ m.
Proof.
  intros Hs Hne. eexists _, _, _. split; [by apply run_str|].
  pose proof (words_length_bound s).
  destruct s; [done|]. simpl length in *. lia.
Qed.

Lemma run_counts_bound_witness :
  ∃ n m ws,
    run {[ py "text" := VStr (py "a b c") ]} = Returned (word_stats n m ws)
    ∧ 0 ≤ n ∧ 2 * n - 1 ≤ m ∧ n ≤ m.
Proof.
  refine (run_counts_bound {[ py "text" := VStr (py "a b c") ]}
                           (py "a b c") _ _).
  - by vm_compute.
  - discriminate.
Defined.

(** ** The words are stretches of the text *)

Lemma pieces_substrings (s : str) :
  match pieces s with
  | p :: ps =>
      (∃ post, s = p ++ post)
      ∧ Forall (λ w, ∃ pre post, s = pre ++ w ++ post) ps
  | [] => True
  end.
Proof.
  induction s as [|c s IH]; simpl; [split; [by exists []|constructor]|].
  destruct (pieces_cons s) as (p & ps & Hp). rewrite Hp in IH |- *.
  destruct IH as [[post Hpost] Hps].
  assert (Forall (λ w, ∃ pre post, c :: s = pre ++ w ++ post) ps) as Hps'.
  { eapply Forall_impl; [exact Hps|].
    intros w (pre & post' & ->). by exists (c :: pre), post'. }
  destruct (isspace c).
  - split; [by exists (c :: s)|].
    constructor; [|done]. exists [c], post. by rewrite Hpost at 1.
  - split; [|done]. exists post. by rewrite Hpost at 1.
Qed.

Lemma words_substrings (s : str) :
  Forall (λ w, ∃ pre post, s = pre ++ w ++ post)
         (whitespace_separated_words s).
Proof.
  unfold whitespace_separated_words.
  pose proof (pieces_substrings s) as H.
  destruct (pieces s) as [|p ps]; [constructor|].
  destruct H as [[post Hp] Hps].
  apply Forall_forall. intros w [_ Hin]%list_elem_of_filter.
  apply elem_of_cons in Hin as [->|Hin].
  - by exists [], post.
  - by apply (proj1 (Forall_forall _ _) Hps).
Qed.

(** X4: every entry of the [words] list of a Success is a non-empty stretch of
    consecutive characters of the text that holds no whitespace, and the list
    never has more than 10 entries. *)
Theorem run_words_are_substrings (args : gmap str value) (s : str) :
  args !! py "text" = Some (VStr s) → s ≠ [] →
  ∃ n m ws,
    run args = Returned (word_stats n m ws)
    ∧ (length ws ≤ 10)%nat
    ∧ Forall (λ w, w ≠ []
                   ∧ Forall (λ c, ¬ isspace c) w
                   ∧ ∃ pre post, s = pre ++ w ++ post) ws.
Proof.
  intros Hs Hne. eexists _, _, _. split; [by apply run_str|].
  split; [rewrite length_take; lia|].
  apply Forall_forall. intros w Hw%subseteq_take.
  destruct (words_sound s) as [Hsound _].
  destruct (proj1 (Forall_forall _ _) Hsound w Hw) as [Hne' Hfree].
  split; [done|]. split; [done|].
  by apply (proj1 (Forall_forall _ _) (words_substrings s)).
Qed.

Lemma run_words_are_substrings_witness :
  ∃ n m ws,
    run {[ py "text" := VStr (py " ab  cd ") ]} = Returned (word_stats n m ws)
    ∧ (length ws ≤ 10)%nat
    ∧ Forall (λ w, w ≠ []
                   ∧ Forall (λ c, ¬ isspace c) w
                   ∧ ∃ pre post, py " ab  cd " = pre ++ w ++ post) ws.
Proof.
  refine (run_words_are_substrings {[ py "text" := VStr (py " ab  cd ") ]}
                                   (py " ab  cd ") _ _).
  - by vm_compute.
  - discriminate.
Defined.

(** ** Putting texts together *)

Lemma pieces_app_space (s1 s2 : str) (c : char) :
  isspace c → pieces (s1 ++ c :: s2) = pieces s1 ++ pieces s2.
Proof.
  intros Hc. induction s1 as [|a s1 IH]; simpl.
  - by destruct (isspace c).
  - rewrite IH. destruct (isspace a); [done|].
    by destruct (pieces_cons s1) as (p & ps & ->).
Qed.

Lemma words_app_space (s1 s2 : str) (c : char) :
  isspace c →
  whitespace_separated_words (s1 ++ c :: s2)
  = whitespace_separated_words s1 ++ whitespace_separated_words s2.
Proof.
  intros Hc. unfold whitespace_separated_words.
  by rewrite pieces_app_space, filter_app.
Qed.

Lemma take_app_take {A} (k : nat) (l1 l2 : list A) :
  take k (take k l1 ++ take k l2) = take k (l1 ++ l2).
Proof.
  rewrite !take_app, !take_take, length_take. f_equal; f_equal; lia.
Qed.

(** X5: two texts joined by one whitespace character: if [run] answers the
    first with [(n1, m1, ws1)] and the second with [(n2, m2, ws2)], it answers
    the joined text with [wordCount] [n1 + n2], [characterCount]
    [m1 + m2 + 1] and the first 10 entries of [ws1 + ws2]. *)
Theorem run_join (args1 args2 args : gmap str value) (s1 s2 : str) (c : char)
    (n1 m1 n2 m2 : Z) (ws1 ws2 : list str) :
  args1 !! py "text" = Some (VStr s1) →
  args2 !! py "text" = Some (VStr s2) →
  args !! py "text" = Some (VStr (s1 ++ c :: s2)) →
  isspace c →
  run args1 = Returned (word_stats n1 m1 ws1) →
  run args2 = Returned (word_stats n2 m2 ws2) →
  run args
  = Returned (word_stats (n1 + n2) (m1 + m2 + 1) (take 10 (ws1 ++ ws2))).
Proof.
  intros H1 H2 H Hc Hr1 Hr2.
  destruct (run_str_inv _ _ _ _ _ H1 Hr1) as (_ & -> & -> & ->).
  destruct (run_str_inv _ _ _ _ _ H2 Hr2) as (_ & -> & -> & ->).
  rewrite (run_str _ _ H) by (by destruct s1).
  rewrite words_app_space by done.
  rewrite take_app_take, !length_app. simpl length.
  do 2 f_equal; lia.
Qed.

Lemma run_join_witness :
  run {[ py "text" := VStr (py "a b" ++ 32%N :: py "c") ]}
  = Returned (word_stats (2 + 1) (3 + 1 + 1)
                         (take 10 ([py "a"; py "b"] ++ [py "c"]))).
Proof.
  refine (run_join {[ py "text" := VStr (py "a b") ]}
                   {[ py "text" := VStr (py "c") ]}
                   {[ py "text" := VStr (py "a b" ++ 32%N :: py "c") ]}
                   (py "a b") (py "c") 32%N 2 3 1 1 [py "a"; py "b"] [py "c"]
                   _ _ _ _ _ _); by vm_compute.
Defined.

(** X6: nothing after the tenth word shows in [words]: when [run] counts at
    least 10 words in a text, whatever follows the text after a whitespace
    character leaves the [words] list as it is and only raises the two
    counts. *)
Theorem run_words_prefix_stable (args args' : gmap str value) (s t : str)
    (c : char) (n m : Z) (ws : list str) :
  args !! py "text" = Some (VStr s) →
  args' !! py "text" = Some (VStr (s ++ c :: t)) →
  isspace c →
  run args = Returned (word_stats n m ws) → 10 ≤ n →
  ∃ n' m', run args' = Returned (word_stats n' m' ws) ∧ n ≤ n' ∧ m < m'.
Proof.
  intros Hs Hs' Hc Hr Hn.
  destruct (run_str_inv _ _ _ _ _ Hs Hr) as (_ & -> & -> & ->).
  eexists _, _. rewrite (run_str _ _ Hs') by (by destruct s).
  rewrite words_app_space by done.
  rewrite take_app_le by lia. split; [done|].
  rewrite !length_app. simpl length. lia.
Qed.

Lemma run_words_prefix_stable_witness :
  ∃ n' m',
    run {[ py "text" := VStr (py "a b c d e f g h i j" ++ 32%N :: py "k l") ]}
    = Returned (word_stats n' m'
                  [py "a"; py "b"; py "c"; py "d"; py "e";
                   py "f"; py "g"; py "h"; py "i"; py "j"])
    ∧ 10 ≤ n' ∧ 19 < m'.
Proof.
  refine (run_words_prefix_stable
            {[ py "text" := VStr (py "a b c d e f g h i j") ]}
            {[ py "text" := VStr (py "a b c d e f g h i j" ++ 32%N :: py "k l") ]}
            (py "a b c d e f g h i j") (py "k l") 32%N 10 19
            [py "a"; py "b"; py "c"; py "d"; py "e";
             py "f"; py "g"; py "h"; py "i"; py "j"]
            _ _ _ _ _); by vm_compute.
Defined.

(** ** Whitespace around and between the words *)

(** X7: whitespace put before and after a text changes neither [wordCount]
    nor [words]; [characterCount] grows by the number of characters added,
    for it is the length of the unstripped text. *)
Theorem run_padding (args args' : gmap str value) (s l r : str)
    (n m : Z) (ws : list str) :
  args !! py "text" = Some (VStr s) →
  args' !! py "text" = Some (VStr (l ++ s ++ r)) →
  Forall (λ c, isspace c) l → Forall (λ c, isspace c) r →
  run args = Returned (word_stats n m ws) →
  run args'
  = Returned (word_stats n (m + Z.of_nat (length l) + Z.of_nat (length r)) ws).
Proof.
  intros Hs Hs' Hl Hr Hrun.
  destruct (run_str_inv _ _ _ _ _ Hs Hrun) as (Hne & -> & -> & ->).
  rewrite (run_str _ _ Hs') by (destruct l, s; done).
  rewrite words_spaces_l, words_spaces_r by done.
  rewrite !length_app. do 2 f_equal. lia.
Qed.

Lemma run_padding_witness :
  run {[ py "text" := VStr (py "  " ++ py "a b" ++ [9; 10]%N) ]}
  = Returned (word_stats 2 (3 + Z.of_nat (length (py "  "))
                              + Z.of_nat (length [9; 10]%N))
                         [py "a"; py "b"]).
Proof.
  refine (run_padding {[ py "text" := VStr (py "a b") ]}
                      {[ py "text" := VStr (py "  " ++ py "a b" ++ [9; 10]%N) ]}
                      (py "a b") (py "  ") [9; 10]%N 2 3 [py "a"; py "b"]
                      _ _ _ _ _); try (by vm_compute).
  - repeat constructor.
  - repeat constructor.
Defined.

Lemma pieces_respace (s s' : str) :
  Forall2 (λ c c', c = c' ∨ (isspace c ∧ isspace c')) s s' →
  pieces s = pieces s'.
Proof.
  induction 1 as [|c c' s s' Hc _ IH]; simpl; [done|].
  rewrite IH. destruct Hc as [->|[Hc Hc']]; [done|].
  by destruct (isspace c), (isspace c').
Qed.

(** X8: which whitespace character separates the words does not matter: two
    texts that differ only in that whitespace characters are replaced by other
    whitespace characters get the same result from [run], counts and words
    alike. *)
Theorem run_any_whitespace (args args' : gmap str value) (s s' : str) :
  args !! py "text" = Some (VStr s) →
  args' !! py "text" = Some (VStr s') →
  Forall2 (λ c c', c = c' ∨ (isspace c ∧ isspace c')) s s' →
  run args = run args'.
Proof.
  intros Hs Hs' Hss'.
  pose proof (Forall2_length _ _ _ Hss') as Hlen.
  destruct s as [|c s], s' as [|c' s']; try done.
  - by rewrite (run_falsy _ _ Hs), (run_falsy _ _ Hs').
  - rewrite (run_str _ _ Hs), (run_str _ _ Hs') by done.
    unfold whitespace_separated_words.
    by rewrite (pieces_respace _ _ Hss'), Hlen.
Qed.

Lemma run_any_whitespace_witness :
  run {[ py "text" := VStr [97; 32; 98; 32; 32; 99]%N ]}
  = run {[ py "text" := VStr [97; 9; 98; 10; 160; 99]%N ]}.
Proof.
  refine (run_any_whitespace _ _ [97; 32; 98; 32; 32; 99]%N
                             [97; 9; 98; 10; 160; 99]%N _ _ _).
  - by vm_compute.
  - by vm_compute.
  - repeat constructor; (by left) || (right; by vm_compute).
Defined.

Lemma pieces_same_pattern (s s' : str) :
  Forall2 (λ c c', isspace c = isspace c') s s' →
  match pieces s, pieces s' with
  | p :: ps, p' :: ps' =>
      (p = [] ↔ p' = [])
      ∧ length (filter (λ w, w ≠ []) ps) = length (filter (λ w, w ≠ []) ps')
  | _, _ => False
  end.
Proof.
  induction 1 as [|c c' s s' Hc _ IH]; simpl; [done|].
  rewrite <-Hc.
  destruct (pieces s) as [|p ps], (pieces s') as [|p' ps']; try done.
  destruct IH as [Hp Hps]. destruct (isspace c).
  - split; [done|].
    destruct (decide (p = [])) as [Hnil|Hne].
    + rewrite !filter_cons_False by (intros H; apply H; tauto). done.
    + rewrite !filter_cons_True by tauto. simpl. by rewrite Hps.
  - done.
Qed.

(** X10: the two counts depend only on where the whitespace is: two texts of
    which each character is whitespace in the one exactly when the character
    at the same place is in the other get the same [wordCount] and the same
    [characterCount]. *)
Theorem run_counts_by_pattern (args args' : gmap str value) (s s' : str)
    (n m : Z) (ws : list str) :
  args !! py "text" = Some (VStr s) →
  args' !! py "text" = Some (VStr s') →
  Forall2 (λ c c', isspace c = isspace c') s s' →
  run args = Returned (word_stats n m ws) →
  ∃ ws', run args' = Returned (word_stats n m ws')
         ∧ length ws' = length ws.
Proof.
  intros Hs Hs' Hss' Hr.
  destruct (run_str_inv _ _ _ _ _ Hs Hr) as (Hne & -> & -> & ->).
  pose proof (Forall2_length _ _ _ Hss') as Hlen.
  assert (length (whitespace_separated_words s')
          = length (whitespace_separated_words s)) as Hwords.
  { unfold whitespace_separated_words.
    pose proof (pieces_same_pattern _ _ Hss') as H.
    destruct (pieces s) as [|p ps], (pieces s') as [|p' ps']; try done.
    destruct H as [Hp Hps].
    destruct (decide (p = [])) as [Hnil|Hnn].
    - rewrite !filter_cons_False by (intros H; apply H; tauto). done.
    - rewrite !filter_cons_True by tauto. simpl. by rewrite Hps. }
  eexists. rewrite (run_str _ _ Hs') by (destruct s, s'; done).
  rewrite Hwords, <-Hlen. split; [done|].
  rewrite !length_take. lia.
Qed.

Lemma run_counts_by_pattern_witness :
  ∃ ws', run {[ py "text" := VStr (py "xx yyy") ]}
         = Returned (word_stats 2 6 ws')
         ∧ length ws' = length [py "ab"; py "cde"].
Proof.
  refine (run_counts_by_pattern {[ py "text" := VStr (py "ab cde") ]}
                                {[ py "text" := VStr (py "xx yyy") ]}
                                (py "ab cde") (py "xx yyy") 2 6
                                [py "ab"; py "cde"] _ _ _ _);
    try (by vm_compute).
  repeat constructor.
Defined.

(** ** The one way [run] fails to return *)

(** X9: the only exception [run] raises is the AttributeError of
    [text.strip()], and it raises it only for a ["text"] value that is truthy
    and not a string; [len(text)] never fails. *)
Theorem run_only_attribute_error (args : gmap str value) (e : exception) :
  run args = Raised e →
  e = AttributeError
  ∧ ∃ x, args !! py "text" = Some x ∧ truthy x = true ∧ is_str x = false.
Proof.
  intros Hr. destruct (args !! py "text") as [x|] eqn:Hx.
  - destruct (truthy x) eqn:Ht; [|by rewrite (run_falsy _ _ Hx Ht) in Hr].
    destruct (is_str x) eqn:Hstr.
    + destruct x as [| | | |s| |]; try done.
      rewrite (run_str _ _ Hx) in Hr by (by destruct s). done.
    + rewrite (run_raises _ _ Hx Ht Hstr) in Hr. injection Hr as <-. eauto.
  - by rewrite (run_absent _ Hx) in Hr.
Qed.

Lemma run_only_attribute_error_witness :
  AttributeError = AttributeError
  ∧ ∃ x, ({[ py "text" := VList [VInt 1] ]} : gmap str value) !! py "text"
         = Some x
         ∧ truthy x = true ∧ is_str x = false.
Proof.
  refine (run_only_attribute_error {[ py "text" := VList [VInt 1] ]}
                                   AttributeError _).
  by vm_compute.
Defined.

(** ** The text read as words and gaps *)

(** A text is some leading whitespace followed by its words, each with the
    whitespace that comes after it; only the last of these gaps can be
    empty. *)
Lemma words_gaps (s : str) :
  ∃ (lead : str) (rest : list (str * str)),
    whitespace_separated_words s = rest.*1
    ∧ s = lead ++ concat ((λ x, x.1 ++ x.2) <$> rest)
    ∧ Forall (λ c, isspace c) lead
    ∧ Forall (λ x, Forall (λ c, isspace c) x.2) rest
    ∧ (∀ i x, rest !! i = Some x → (S i < length rest)%nat → x.2 ≠ [])
    ∧ match pieces s with
      | p :: _ => lead = [] ↔ (p ≠ [] ∨ s = [])
      | [] => False
      end.
Proof.
  unfold whitespace_separated_words.
  induction s as [|c s (lead & rest & Hw & Hs & Hlead & Hgaps & Hinner & Hhead)].
  { exists [], []. simpl.
    rewrite (filter_cons_False _ []) by (intros H; by apply H).
    repeat split; auto; try done. }
  simpl pieces. destruct (pieces s) as [|p ps] eqn:Hp; [done|].
  destruct (isspace c) eqn:Hc.
  - exists (c :: lead), rest.
    rewrite (filter_cons_False _ []) by (intros H; by apply H).
    split; [done|]. split; [by rewrite Hs at 1|].
    split; [constructor; [by rewrite Hc|done]|].
    split; [done|]. split; [done|].
    split; [done|]. by intros [?|?].
  - rewrite filter_cons_True by done.
    destruct (decide (p = [])) as [->|Hne].
    + rewrite (filter_cons_False _ []) in Hw by (intros H; by apply H).
      exists [], (([c], lead) :: rest). simpl.
      split; [by rewrite Hw|]. split; [by rewrite Hs at 1|].
      split; [done|]. split; [by constructor|]. split; [|by split; [left|]].
      intros [|i] x Hx Hi; simpl in Hx, Hi.
      * injection Hx as <-. simpl. intros ->.
        destruct (proj1 Hhead eq_refl) as [?| ->]; [done|].
        simpl in Hp. injection Hp as <-.
        destruct rest; [simpl in Hi; lia|done].
      * apply (Hinner i x Hx). lia.
    + rewrite filter_cons_True in Hw by done.
      destruct rest as [|[w g] rest]; [done|]. simpl in Hw.
      injection Hw as <- Hw.
      rewrite (proj2 Hhead (or_introl Hne)) in Hs.
      exists [], ((c :: p, g) :: rest). simpl in *.
      split; [by rewrite Hw|]. split; [by rewrite Hs at 1|].
      split; [done|].
      split; [by inversion_clear Hgaps; constructor|].
      split; [|by split; [left|]].
      intros [|i] x Hx Hi; simpl in Hx, Hi.
      * injection Hx as <-. by apply (Hinner 0%nat (p, g)).
      * by apply (Hinner (S i) x).
Qed.

(** X11: the text is exactly its words and the whitespace around them: for a
    non-empty string there are the leading whitespace and, for each word in
    order, the whitespace after it (not empty except after the last word)
    of which the text is the concatenation; [wordCount] is the number of these
    words and [words] holds the first 10 of them. *)
Theorem run_text_from_words (args : gmap str value) (s : str) :
  args !! py "text" = Some (VStr s) → s ≠ [] →
  ∃ (lead : str) (rest : list (str * str)),
    run args
    = Returned (word_stats (Z.of_nat (length rest)) (Z.of_nat (length s))
                           (take 10 rest.*1))
    ∧ s = lead ++ concat ((λ x, x.1 ++ x.2) <$> rest)
    ∧ Forall (λ c, isspace c) lead
    ∧ Forall (λ x, x.1 ≠ [] ∧ Forall (λ c, ¬ isspace c) x.1
                   ∧ Forall (λ c, isspace c) x.2) rest
    ∧ (∀ i x, rest !! i = Some x → (S i < length rest)%nat → x.2 ≠ []).
Proof.
  intros Hs Hne.
  destruct (words_gaps s) as (lead & rest & Hw & Heq & Hlead & Hgaps & Hinner & _).
  exists lead, rest. rewrite (run_str _ _ Hs Hne), Hw, length_fmap.
  split; [done|]. split; [done|]. split; [done|]. split; [|done].
  destruct (words_sound s) as [Hsound _]. rewrite Hw in Hsound.
  apply Forall_fmap in Hsound.
  apply Forall_forall. intros x Hx.
  destruct (proj1 (Forall_forall _ _) Hsound x Hx) as [Hne' Hfree].
  by pose proof (proj1 (Forall_forall _ _) Hgaps x Hx).
Qed.

Lemma run_text_from_words_witness :
  ∃ (lead : str) (rest : list (str * str)),
    run {[ py "text" := VStr (py " ab  cd ") ]}
    = Returned (word_stats (Z.of_nat (length rest))
                           (Z.of_nat (length (py " ab  cd ")))
                           (take 10 rest.*1))
    ∧ py " ab  cd " = lead ++ concat ((λ x, x.1 ++ x.2) <$> rest)
    ∧ Forall (λ c, isspace c) lead
    ∧ Forall (λ x, x.1 ≠ [] ∧ Forall (λ c, ¬ isspace c) x.1
                   ∧ Forall (λ c, isspace c) x.2) rest
    ∧ (∀ i x, rest !! i = Some x → (S i < length rest)%nat → x.2 ≠ []).
Proof.
  refine (run_text_from_words {[ py "text" := VStr (py " ab  cd ") ]}
                              (py " ab  cd ") _ _).
  - by vm_compute.
  - discriminate.
Defined.
